(** * steem.transactionbuilder: the TransactionBuilder class

    A shallow embedding of [steem/transactionbuilder.py].  The builder is a
    Python [dict] subclass carrying a few attributes ([op], [wifs],
    [no_broadcast], [expiration]); its methods mutate it in place and raise
    exceptions.  Methods are embedded in a state-and-exception monad over
    the builder and a trace of the calls made to the node; a raised
    exception keeps the state reached at the point of the [raise], as in
    Python.

    The classes the module imports ([Account], [Wallet], [PrivateKey],
    [SignedTransaction], the node behind [self.steem]) live in other
    modules.  They are taken as interfaces (type classes); every theorem
    holds for all their implementations.

    Embedded here: [__init__], [appendOps], [appendSigner], [appendWif],
    [constructTx], [sign], [broadcast], [addSigningInformation], [json] and
    [appendMissingSignatures].

    The exceptions keep their Python names.  The design document calls
    [ValueError("Invalid TransactionBuilder Format")] InvalidConstructionInput,
    [ValueError("Invalid permission")] InvalidPermissionLevel,
    [MissingKeyError] MissingSigningKey and [InsufficientAuthorityError]
    InsufficientAuthority; PendingSigners is [wifs]. *)

From stdpp Require Import gmap strings list fin_maps.
From Stdlib Require Import ZArith.

Open Scope string_scope.
Open Scope list_scope.
Open Scope Z_scope.
Set Warnings "-register-all".

(** ** Python values *)

(** The values that travel through the builder: JSON-like data. *)
Inductive value : Type :=
| VNone
| VBool (b : bool)
| VInt (z : Z)
| VStr (s : string)
| VList (l : list value)
| VDict (d : gmap string value).

(** Python truth value testing ([if x:], [x or y], [any]). *)
Definition truthy (v : value) : bool :=
  match v with
  | VNone => false
  | VBool b => b
  | VInt z => negb (z =? 0)
  | VStr s => negb (String.eqb s "")
  | VList l => match l with [] => false | _ :: _ => true end
  | VDict d => negb (bool_decide (d = ∅))
  end.

(** [isinstance(v, dict)]. *)
Definition isinstance_dict (v : value) : bool :=
  match v with
  | VDict _ => true
  | _ => false
  end.

(** The built-in [any]. *)
Definition any (l : list value) : bool := existsb truthy l.

(** ** Exceptions and results *)

Inductive exn : Type :=
| ValueError (msg : string)
| KeyError (key : string)
| AttributeError (attr : string)
| InvalidKeyFormat
| MissingKeyError
| InsufficientAuthorityError
| Foreign (what : string).

Inductive result (A : Type) : Type :=
| Return (a : A)
| Raise (e : exn).
Arguments Return {A} a.
Arguments Raise {A} e.

(** ** The builder object *)

Record TransactionBuilder : Type := mkBuilder {
  items : gmap string value;
  no_broadcast : bool;
  expiration : Z;
  op : list value;
  wifs : list value
}.

(** [TransactionBuilder.__init__(tx, steem_instance, no_broadcast, expiration)].
    [tx] defaults to [None]. *)
Definition init (tx : value) (no_broadcast : bool) (expiration : Z)
  : result TransactionBuilder :=
  if truthy tx && negb (isinstance_dict tx)
  then Raise (ValueError "Invalid TransactionBuilder Format")
  else
    let seed := if truthy tx then tx else VDict ∅ in
    match seed with
    | VDict d => Return (mkBuilder d no_broadcast expiration [] [])
    | _ => Raise (Foreign "TypeError")
    end.

(** ** Accounts and authorities *)

(** One permission level of an account, as the node reports it: each of
    [account_auths] and [key_auths] is a list of [[name_or_key, weight]]
    pairs. *)
Record Authority : Type := mkAuthority {
  weight_threshold : Z;
  account_auths : list (string * Z);
  key_auths : list (string * Z)
}.

(** An [Account] object: a mapping with a ["name"] and one authority per
    permission level.  Only the authority-valued fields are kept; subscripting
    an absent field raises [KeyError] and [get] gives [None]. *)
Record Account : Type := mkAccount {
  name : string;
  authorities : gmap string Authority
}.

Definition auth_pair (p : string * Z) : value := VList [VStr p.1; VInt p.2].

(** The authority as it is stored inside the builder's mapping. *)
Definition authority_value (a : Authority) : value :=
  VDict (<["weight_threshold" := VInt (weight_threshold a)]>
        (<["account_auths" := VList (auth_pair <$> account_auths a)]>
        (<["key_auths" := VList (auth_pair <$> key_auths a)]> ∅))).

(** [account.get(permission)]. *)
Definition account_get (a : Account) (permission : string) : value :=
  match authorities a !! permission with
  | Some au => authority_value au
  | None => VNone
  end.

(** [[x[0] for x in authority["key_auths"]]]. *)
Definition key_names (a : Authority) : list value := (λ x, VStr x.1) <$> key_auths a.

(** ** Collaborators *)

(** [Account(name, steem_instance=...)]: the account lookup. *)
Class AccountDirectory : Type := {
  Account_new : string → result Account
}.

(** [Wallet] and [PrivateKey]: key lookup by account and key validation. *)
Class KeyStore : Type := {
  getActiveKeyForAccount : string → value;
  getPostingKeyForAccount : string → value;
  getOwnerKeyForAccount : string → value;
  PrivateKey_new : value → result unit
}.

(** The node behind [self.steem], and [SignedTransaction].
    [SignedTransaction_new d] is the constructor called with the entries of
    [d] as keyword arguments;
    [SignedTransaction_sign tx wifs chain] is [tx.sign(wifs, chain=chain)],
    giving the object after the call;
    [SignedTransaction_signatures tx] is [tx.json().get("signatures")]. *)
Class ChainClient : Type := {
  chain_params : value;
  verify_authority : gmap string value → result bool;
  broadcast_transaction : gmap string value → result unit;
  SignedTransaction : Type;
  SignedTransaction_new : gmap string value → result SignedTransaction;
  SignedTransaction_sign : SignedTransaction → list value → value → result SignedTransaction;
  SignedTransaction_signatures : SignedTransaction → list value
}.

(** ** The monad of builder methods *)

(** What a method does besides changing the builder. *)
Inductive event : Type :=
| LogWarning (msg : string)
| VerifyAuthority (tx : gmap string value)
| BroadcastTransaction (tx : gmap string value).

Record World : Type := mkWorld {
  self : TransactionBuilder;
  trace : list event
}.

Definition M (A : Type) : Type := World → result A * World.

Definition ret {A} (a : A) : M A := λ w, (Return a, w).
Definition raise {A} (e : exn) : M A := λ w, (Raise e, w).
Definition bind {A B} (m : M A) (k : A → M B) : M B :=
  λ w, match m w with
       | (Return a, w') => k a w'
       | (Raise e, w') => (Raise e, w')
       end.

Declare Scope py_scope.
Delimit Scope py_scope with py.
Notation "x <- m ;; k" := (bind m (λ x, k))
  (at level 100, m at next level, right associativity) : py_scope.
Notation "m ;; k" := (bind m (λ _, k))
  (at level 100, right associativity) : py_scope.

(** A collaborator's answer, raised or returned. *)
Definition call {A} (r : result A) : M A := λ w, (r, w).

(** [try: m  except: raise e] with a bare [except]. *)
Definition try_except_raise {A} (m : M A) (e : exn) : M A :=
  λ w, match m w with
       | (Return a, w') => (Return a, w')
       | (Raise _, w') => (Raise e, w')
       end.

Definition get_self : M TransactionBuilder := λ w, (Return (self w), w).
Definition put_self (b : TransactionBuilder) : M unit :=
  λ w, (Return tt, mkWorld b (trace w)).
Definition emit (e : event) : M unit :=
  λ w, (Return tt, mkWorld (self w) (trace w ++ [e])).

Definition set_items (d : gmap string value) (b : TransactionBuilder) :=
  mkBuilder d (no_broadcast b) (expiration b) (op b) (wifs b).
Definition set_wifs (l : list value) (b : TransactionBuilder) :=
  mkBuilder (items b) (no_broadcast b) (expiration b) (op b) l.

(** [self[key] = v] (also [self.update({key: v})]). *)
Definition setitem (key : string) (v : value) : M unit :=
  (b <- get_self ;; put_self (set_items (<[key := v]> (items b)) b))%py.

(** [self[key]]. *)
Definition getitem (key : string) : M value :=
  (b <- get_self ;;
   match items b !! key with
   | Some v => ret v
   | None => raise (KeyError key)
   end)%py.

(** [self.wifs.append(wif)]. *)
Definition wifs_append (wif : value) : M unit :=
  (b <- get_self ;; put_self (set_wifs (wifs b ++ [wif]) b))%py.

(** [self.json()], that is [dict(self)]. *)
Definition json : M (gmap string value) :=
  (b <- get_self ;; ret (items b))%py.

(** [for x in l: body(x)]. *)
Fixpoint for_each {A} (l : list A) (body : A → M unit) : M unit :=
  match l with
  | [] => ret tt
  | x :: rest => (body x ;; for_each rest body)%py
  end.

(** [account[permission]]. *)
Definition account_getitem (a : Account) (permission : string) : M Authority :=
  match authorities a !! permission with
  | Some au => ret au
  | None => raise (KeyError permission)
  end.

(** [self[key].update({k: v})] on a nested mapping. *)
Definition item_update (key k : string) (v : value) : M unit :=
  (cur <- getitem key ;;
   match cur with
   | VDict m => setitem key (VDict (<[k := v]> m))
   | _ => raise (AttributeError "update")
   end)%py.

(** [self[key].extend(l)] on a nested list. *)
Definition item_extend (key : string) (l : list value) : M unit :=
  (cur <- getitem key ;;
   match cur with
   | VList l0 => setitem key (VList (l0 ++ l))
   | _ => raise (AttributeError "extend")
   end)%py.

(** ** The methods *)

Section Methods.
Context `{AccountDirectory} `{KeyStore} `{ChainClient}.

Definition appendSigner (account permission : string) : M unit :=
  (account <- call (Account_new account) ;;
   wif <- (if String.eqb permission "active" then
             ret (getActiveKeyForAccount (name account))
           else if String.eqb permission "posting" then
             ret (getPostingKeyForAccount (name account))
           else if String.eqb permission "owner" then
             ret (getOwnerKeyForAccount (name account))
           else raise (ValueError "Invalid permission")) ;;
   wifs_append wif)%py.

Definition appendWif (wif : value) : M unit :=
  if truthy wif then
    try_except_raise
      (call (PrivateKey_new wif) ;; wifs_append wif)%py
      InvalidKeyFormat
  else ret tt.

Definition sign : M unit :=
  (signedtx <- try_except_raise
                 (d <- json ;; call (SignedTransaction_new d))
                 (ValueError "Invalid TransactionBuilder Format") ;;
   b <- get_self ;;
   if negb (any (wifs b)) then raise MissingKeyError
   else
     signedtx <- call (SignedTransaction_sign signedtx (wifs b) chain_params) ;;
     item_extend "signatures" (SignedTransaction_signatures signedtx))%py.

(** The [try: ... except Exception as e: raise e] wrappers re-raise what
    they catch and are left out. *)
Definition broadcast : M TransactionBuilder :=
  (b <- get_self ;;
   if no_broadcast b then
     emit (LogWarning "Not broadcasting anything!") ;; get_self
   else
     d <- json ;;
     emit (VerifyAuthority d) ;;
     ok <- call (verify_authority d) ;;
     (if negb ok then raise InsufficientAuthorityError else ret tt) ;;
     d <- json ;;
     emit (BroadcastTransaction d) ;;
     call (broadcast_transaction d) ;;
     get_self)%py.

Definition addSigningInformation (account permission : string) : M unit :=
  (accountObj <- call (Account_new account) ;;
   authority <- account_getitem accountObj permission ;;
   setitem "required_authorities"
     (VDict {[account := authority_value authority]}) ;;
   for_each (account_auths authority) (λ account_auth,
     account_auth_account <- call (Account_new account_auth.1) ;;
     item_update "required_authorities" account_auth.1
       (account_get account_auth_account permission)) ;;
   setitem "missing_signatures" (VList (key_names authority)) ;;
   for_each (account_auths authority) (λ account_auth,
     account_auth_account <- call (Account_new account_auth.1) ;;
     au <- account_getitem account_auth_account permission ;;
     item_extend "missing_signatures" (key_names au)) ;;
   setitem "blockchain" chain_params)%py.

End Methods.

(** ** Shapes of the state after a step *)

(** The world after [self.wifs.append(wif)]. *)
Definition appended (wif : value) (w : World) : World :=
  mkWorld (set_wifs (wifs (self w) ++ [wif]) (self w)) (trace w).

(** The world after one more event. *)
Definition logged (e : event) (w : World) : World :=
  mkWorld (self w) (trace w ++ [e]).

(** The world after [self[key] = v]. *)
Definition with_item (key : string) (v : value) (w : World) : World :=
  mkWorld (set_items (<[key := v]> (items (self w))) (self w)) (trace w).

(** The delegated account [aa.1] exists and its authority at [permission]
    is [del aa.1]. *)
Definition resolves `{AccountDirectory} (permission : string) (del : string → Authority)
    (aa : string * Z) : Prop :=
  ∃ a, Account_new aa.1 = Return a
       ∧ authorities a !! permission = Some (del aa.1).

(** The mapping the first loop builds from [m]. *)
Definition delegated_authorities (del : string → Authority)
    (m : gmap string value) (l : list (string * Z)) : gmap string value :=
  foldl (λ m aa, <[aa.1 := authority_value (del aa.1)]> m) m l.

(** The keys the second loop adds. *)
Definition delegated_keys (del : string → Authority)
    (l : list (string * Z)) : list value :=
  concat ((λ aa, key_names (del aa.1)) <$> l).

(** ** A concrete set of collaborators

    Used to run the methods on concrete inputs. *)

Module Demo.

Definition pubA := "STM5pubkeyAlice".
Definition pubB := "STM6pubkeyBob".
Definition pubC := "STM7pubkeyCarol".
Definition wifA := "5JaliceAliceAliceAliceAliceAliceAliceAliceAliceAlic".
Definition wifB := "5KbobBobBobBobBobBobBobBobBobBobBobBobBobBobBobBobB".

Definition alice_active : Authority := mkAuthority 1 [("bob", 1)] [(pubA, 1)].
Definition bob_active : Authority := mkAuthority 1 [("carol", 1)] [(pubB, 1)].
Definition carol_active : Authority := mkAuthority 1 [] [(pubC, 1)].

(** Modelled from the spec: the [Account] class of [steem.account], as the
    AccountDirectory, [lookup(accountName)] giving the authorities per
    permission level and failing on an unknown account.  Three accounts:
    alice delegates to bob, bob to carol. *)
Definition lookup (n : string) : result Account :=
  if String.eqb n "alice" then Return (mkAccount "alice" {["active" := alice_active]})
  else if String.eqb n "bob" then Return (mkAccount "bob" {["active" := bob_active]})
  else if String.eqb n "carol" then Return (mkAccount "carol" {["active" := carol_active]})
  else Raise (Foreign "AccountDoesNotExistsException").

(** The authority of the accounts alice delegates to. *)
Definition delegate (n : string) : Authority :=
  if String.eqb n "bob" then bob_active else carol_active.

Definition directory : AccountDirectory := {| Account_new := lookup |}.

(** Modelled from the spec: the [Wallet] class of [steem.wallet] and the
    [PrivateKey] class of [steembase.account], as the KeyStore.  The wallet
    holds alice's active key only; key material is accepted when it is a
    string of 51 characters that starts with ['5'], the shape of a WIF
    private key, and rejected otherwise. *)
Definition wallet_active (n : string) : value :=
  if String.eqb n "alice" then VStr wifA else VBool false.

Definition wif_shaped (v : value) : bool :=
  match v with
  | VStr s => Nat.eqb (String.length s) 51 && String.prefix "5" s
  | _ => false
  end.

Definition check_key (v : value) : result unit :=
  if wif_shaped v then Return tt else Raise (Foreign "Exception").

Definition keystore : KeyStore := {|
  getActiveKeyForAccount := wallet_active;
  getPostingKeyForAccount := λ _, VBool false;
  getOwnerKeyForAccount := λ _, VBool false;
  PrivateKey_new := check_key
|}.

(** Modelled from the spec: the [SignedTransaction] class of
    [steembase.transactions] and the node, as the ChainClient.  A mapping
    is transaction-shaped when it has the fields [ref_block_num],
    [ref_block_prefix], [expiration] and [operations]; signing yields one
    signature per key; the node accepts a transaction that carries a
    signature. *)
Definition shaped (d : gmap string value) : bool :=
  forallb (λ k, bool_decide (is_Some (d !! k)))
    ["ref_block_num"; "ref_block_prefix"; "expiration"; "operations"].

Definition new_tx (d : gmap string value) : result (list value) :=
  if shaped d then Return [] else Raise (KeyError "ref_block_num").

Definition signature_of (wif : value) : value :=
  match wif with
  | VStr s => VStr ("sig:" ++ s)%string
  | _ => VStr "sig:"
  end.

Definition has_signature (d : gmap string value) : bool :=
  match d !! "signatures" with
  | Some v => truthy v
  | None => false
  end.

Definition chain : ChainClient := {|
  chain_params := VDict {["prefix" := VStr "STM"]};
  verify_authority := λ d, Return (has_signature d);
  broadcast_transaction := λ _, Return tt;
  SignedTransaction := list value;
  SignedTransaction_new := new_tx;
  SignedTransaction_sign := λ _ wifs _, Return (signature_of <$> wifs);
  SignedTransaction_signatures := λ tx, tx
|}.

(** An unsigned transfer, as [constructTx] leaves it in the builder. *)
Definition transfer : gmap string value :=
  <["ref_block_num" := VInt 34294]>
  (<["ref_block_prefix" := VInt 3707022213]>
  (<["expiration" := VStr "2016-04-06T08:29:27"]>
  (<["operations" := VList [VList [VStr "transfer"; VStr "alice to bob"]]]>
  (<["signatures" := VList []]> ∅)))).

(** [TransactionBuilder()] and [TransactionBuilder(transfer)]. *)
Definition fresh : World := mkWorld (mkBuilder ∅ false 30 [] []) [].
Definition seeded : World := mkWorld (mkBuilder transfer false 30 [] []) [].

End Demo.

(** ** The remaining methods: appendOps, constructTx, appendMissingSignatures *)

(** What [constructTx] imports from [steembase]: [Operation(o)],
    [fmt_time_from_now(seconds)], [get_block_params(steem)], and
    [SignedTransaction(ref_block_num=, ref_block_prefix=, expiration=,
    operations=).json()].  The time and the block parameters are those read
    at the moment of the call. *)
Class TransactionCodec : Type := {
  Operation : Type;
  Operation_new : value → result Operation;
  fmt_time_from_now : Z → value;
  get_block_params : result (value * value);
  SignedTransaction_of : value → value → value → list Operation
                         → result (gmap string value)
}.

(** [Wallet.getPrivateKeyForPublicKey(pub)]. *)
Class KeyLookup : Type := {
  getPrivateKeyForPublicKey : value → result value
}.

Definition set_op (l : list value) (b : TransactionBuilder) :=
  mkBuilder (items b) (no_broadcast b) (expiration b) l (wifs b).

(** [self.op.append(o)]. *)
Definition op_append (o : value) : M unit :=
  (b <- get_self ;; put_self (set_op (op b ++ [o]) b))%py.

(** The operations [appendOps(ops)] adds: the elements of a list, or the
    one value. *)
Definition as_list (ops : value) : list value :=
  match ops with
  | VList l => l
  | _ => [ops]
  end.

(** [for x in v] and [list(v)]: the elements of a list, the characters of a
    string, the keys of a mapping; other values are not iterable.  A [gmap]
    does not record the insertion order Python iterates a [dict] in; the keys
    come in the order of [map_to_list]. *)
Definition iterate (v : value) : result (list value) :=
  match v with
  | VList l => Return l
  | VStr s => Return ((λ c, VStr (String c "")) <$> String.list_ascii_of_string s)
  | VDict d => Return ((λ kv, VStr kv.1) <$> map_to_list d)
  | _ => Raise (Foreign "TypeError")
  end.

Section MoreMethods.
Context `{KeyStore} `{KeyLookup} `{TransactionCodec}.

(** [[Operation(o) for o in l]]. *)
Fixpoint wrap_all (l : list value) : result (list Operation) :=
  match l with
  | [] => Return []
  | o :: rest =>
      match Operation_new o with
      | Raise e => Raise e
      | Return x =>
          match wrap_all rest with
          | Raise e => Raise e
          | Return xs => Return (x :: xs)
          end
      end
  end.

(** [self.op] is a list ([__init__] makes it one and [appendOps] only
    appends), so the [isinstance(self.op, list)] branch is the one taken.
    The closing [dict.__init__] on the builder, already a populated mapping,
    updates it: entries of [tx.json()] replace those with the same key, the
    others stay. *)
Definition constructTx : M unit :=
  (b <- get_self ;;
   ops <- call (wrap_all (op b)) ;;
   let expiration := fmt_time_from_now (expiration b) in
   params <- call get_block_params ;;
   tx <- call (SignedTransaction_of params.1 params.2 expiration ops) ;;
   b <- get_self ;;
   put_self (set_items (tx ∪ items b) b))%py.

Definition appendOps (ops : value) : M unit :=
  (match ops with
   | VList l => for_each l op_append
   | _ => op_append ops
   end ;;
   constructTx)%py.

(** The argument is not used by the method. *)
Definition appendMissingSignatures (wifs : value) : M unit :=
  (b <- get_self ;;
   let missing_signatures :=
     default (VList []) (items b !! "missing_signatures") in
   pubs <- call (iterate missing_signatures) ;;
   for_each pubs (λ pub,
     wif <- call (getPrivateKeyForPublicKey pub) ;;
     if truthy wif then appendWif wif else ret tt))%py.

End MoreMethods.

(** The body of the loop of [appendMissingSignatures]. *)
Definition collect `{KeyStore} `{KeyLookup} : value → M unit :=
  λ pub, (wif <- call (getPrivateKeyForPublicKey pub) ;;
          if truthy wif then appendWif wif else ret tt)%py.

(** The world with [self.wifs] and with [self.op] replaced. *)
Definition with_wifs (l : list value) (w : World) : World :=
  mkWorld (set_wifs l (self w)) (trace w).
Definition with_op (l : list value) (w : World) : World :=
  mkWorld (set_op l (self w)) (trace w).

(** The world with the builder's mapping replaced. *)
Definition with_items (d : gmap string value) (w : World) : World :=
  mkWorld (set_items d (self w)) (trace w).

(** Every pending key is truthy and accepted by [PrivateKey]. *)
Definition validated `{KeyStore} (ws : list value) : Prop :=
  Forall (λ v, truthy v = true ∧ PrivateKey_new v = Return tt) ws.

(** The wallet finds [key_of pub] for [pub], possibly nothing (a falsy
    value), and what it finds is accepted by [PrivateKey]. *)
Definition found_valid `{KeyStore} `{KeyLookup} (key_of : value → value)
    (pub : value) : Prop :=
  getPrivateKeyForPublicKey pub = Return (key_of pub)
  ∧ (truthy (key_of pub) = true → PrivateKey_new (key_of pub) = Return tt).

(** A second set of concrete collaborators, for the remaining methods. *)
Module DemoOps.

(** Modelled from the spec: the [Operation] class and the transaction
    helpers of [steembase], as the part of the ChainClient that gives the
    reference block and wraps raw descriptors.  A descriptor is accepted when
    it is a pair [[name, payload]] with a string name; the transaction's
    json lists the four transaction fields and an empty ["signatures"]. *)
Definition wrap (o : value) : result value :=
  match o with
  | VList [VStr n; payload] => Return (VList [VStr n; payload])
  | _ => Raise (Foreign "AssertionError")
  end.

Definition tx_json (n p e : value) (ops : list value) : gmap string value :=
  <["ref_block_num" := n]>
  (<["ref_block_prefix" := p]>
  (<["expiration" := e]>
  (<["operations" := VList ops]>
  (<["signatures" := VList []]> ∅)))).

Definition codec : TransactionCodec := {|
  Operation := value;
  Operation_new := wrap;
  fmt_time_from_now := λ _, VStr "2016-04-06T08:29:27";
  get_block_params := Return (VInt 34294, VInt 3707022213);
  SignedTransaction_of := λ n p e ops, Return (tx_json n p e ops)
|}.

(** Modelled from the spec: [Wallet.getPrivateKeyForPublicKey], the
    KeyStore's [getPrivateKeyForPublicKey(pubkey)] giving key material or
    nothing.  The wallet holds alice's and bob's keys, and under carol's
    public key something that is not a key. *)
Definition private_key_for (pub : value) : value :=
  match pub with
  | VStr s =>
      if String.eqb s Demo.pubA then VStr Demo.wifA
      else if String.eqb s Demo.pubB then VStr Demo.wifB
      else if String.eqb s Demo.pubC then VStr "not-a-key"
      else VNone
  | _ => VNone
  end.

Definition wallet : KeyLookup := {|
  getPrivateKeyForPublicKey := λ pub, Return (private_key_for pub)
|}.

(** The node of [Demo.chain], unreachable when it comes to broadcasting. *)
Definition offline : ChainClient := {|
  chain_params := @chain_params Demo.chain;
  verify_authority := @verify_authority Demo.chain;
  broadcast_transaction := λ _, Raise (Foreign "RPCError");
  SignedTransaction := @SignedTransaction Demo.chain;
  SignedTransaction_new := @SignedTransaction_new Demo.chain;
  SignedTransaction_sign := @SignedTransaction_sign Demo.chain;
  SignedTransaction_signatures := @SignedTransaction_signatures Demo.chain
|}.

(** Modelled from the spec: the [Account] class of [steem.account], as
    the AccountDirectory of [Demo] with one more account, erin, who
    delegates to bob, to an account that does not exist, and to carol. *)
Definition erin_active : Authority :=
  mkAuthority 2 [("bob", 1); ("ghost", 1); ("carol", 1)] [("STM9pubkeyErin", 1)].

Definition lookup (n : string) : result Account :=
  if String.eqb n "erin" then Return (mkAccount "erin" {["active" := erin_active]})
  else Demo.lookup n.

Definition directory : AccountDirectory := {| Account_new := lookup |}.

(** A transfer carrying one signature. *)
Definition signed : World :=
  with_item "signatures" (VList [VStr "sig:first"]) Demo.seeded.

Definition transfer_op : value := VList [VStr "transfer"; VStr "alice to bob"].
Definition vote_op : value := VList [VStr "vote"; VStr "alice for bob"].

End DemoOps.

(** * Properties *)

Lemma bind_return {A B} (m : M A) (k : A → M B) w a w' :
  m w = (Return a, w') → bind m k w = k a w'.
Proof. unfold bind. by intros ->. Qed.

Lemma bind_raise {A B} (m : M A) (k : A → M B) w e w' :
  m w = (Raise e, w') → bind m k w = (Raise e, w').
Proof. unfold bind. by intros ->. Qed.

Lemma setitem_run key v w : setitem key v w = (Return tt, with_item key v w).
Proof. reflexivity. Qed.

Lemma getitem_run key v w :
  items (self w) !! key = Some v → getitem key w = (Return v, w).
Proof. unfold getitem, bind, get_self. by intros ->. Qed.

Lemma with_item_same key v w :
  items (self w) !! key = Some v → with_item key v w = w.
Proof.
  destruct w as [[d nb e o ws] t]. unfold with_item, set_items. simpl.
  intros Hd. by rewrite insert_id.
Qed.

Lemma with_item_twice key v1 v2 w :
  with_item key v2 (with_item key v1 w) = with_item key v2 w.
Proof. unfold with_item, set_items. simpl. by rewrite insert_insert_eq. Qed.

Lemma with_item_lookup key v w :
  items (self (with_item key v w)) !! key = Some v.
Proof. apply lookup_insert_eq. Qed.

Lemma with_item_lookup_ne key key' v w :
  key ≠ key' →
  items (self (with_item key v w)) !! key' = items (self w) !! key'.
Proof. intros. by apply lookup_insert_ne. Qed.

(** ** Construction *)

(** C8, as the code has it: a seed that is truthy and not a [dict] makes
    the constructor raise [ValueError]; no seed ([None]), any other falsy
    seed and every [dict] seed give a builder, holding the seed's entries
    (none for a falsy seed) and no operations or keys. *)
Theorem init_seed (tx : value) (nb : bool) (e : Z) :
  (truthy tx = true → isinstance_dict tx = false →
     init tx nb e = Raise (ValueError "Invalid TransactionBuilder Format"))
  ∧ (truthy tx = false → init tx nb e = Return (mkBuilder ∅ nb e [] []))
  ∧ (∀ d, tx = VDict d → init tx nb e = Return (mkBuilder d nb e [] [])).
Proof.
  repeat split.
  - intros Ht Hd. unfold init. by rewrite Ht, Hd.
  - intros Ht. unfold init. by rewrite Ht.
  - intros d ->. unfold init. simpl.
    case_bool_decide as Hd; simpl; [by rewrite Hd | done].
Qed.

Lemma init_seed_witness :
  init (VStr "not a transaction") false 30
    = Raise (ValueError "Invalid TransactionBuilder Format")
  ∧ init VNone false 30 = Return (mkBuilder ∅ false 30 [] [])
  ∧ init (VDict Demo.transfer) false 30
    = Return (mkBuilder Demo.transfer false 30 [] []).
Proof.
  split; [|split].
  - apply (proj1 (init_seed (VStr "not a transaction") false 30)); reflexivity.
  - apply (proj1 (proj2 (init_seed VNone false 30))); reflexivity.
  - apply (proj2 (proj2 (init_seed (VDict Demo.transfer) false 30))); reflexivity.
Defined.

(** The empty string is not a [dict], and seeding a builder with it
    succeeds. *)
Lemma init_empty_string_seed :
  isinstance_dict (VStr "") = false
  ∧ init (VStr "") false 30 = Return (mkBuilder ∅ false 30 [] []).
Proof. split; reflexivity. Qed.

(** ** appendWif *)

Section AppendWif.
Context `{KeyStore}.

(** C9: a falsy [wif] makes [appendWif] return without raising and
    without touching the builder. *)
Theorem appendWif_falsy (wif : value) (w : World) :
  truthy wif = false → appendWif wif w = (Return tt, w).
Proof. intros Hf. unfold appendWif. by rewrite Hf. Qed.

(** C4, as the code has it: for truthy key material, [appendWif] raises
    [InvalidKeyFormat] and leaves the builder as it was when [PrivateKey]
    rejects it, and appends it to [wifs] when [PrivateKey] accepts it. *)
Theorem appendWif_truthy (wif : value) (w : World) :
  truthy wif = true →
  (∀ e, PrivateKey_new wif = Raise e →
     appendWif wif w = (Raise InvalidKeyFormat, w))
  ∧ (PrivateKey_new wif = Return tt →
     appendWif wif w = (Return tt, appended wif w)).
Proof.
  intros Ht. unfold appendWif. rewrite Ht. split.
  - intros e He. unfold try_except_raise, bind, call. by rewrite He.
  - intros Hk. unfold try_except_raise, bind, call. by rewrite Hk.
Qed.

End AppendWif.

Lemma appendWif_falsy_witness :
  @appendWif Demo.keystore (VStr "") Demo.seeded = (Return tt, Demo.seeded)
  ∧ @appendWif Demo.keystore VNone Demo.seeded = (Return tt, Demo.seeded).
Proof.
  split.
  - apply (@appendWif_falsy Demo.keystore (VStr "") Demo.seeded). reflexivity.
  - apply (@appendWif_falsy Demo.keystore VNone Demo.seeded). reflexivity.
Defined.

Lemma appendWif_truthy_witness :
  @appendWif Demo.keystore (VStr "not-a-key") Demo.seeded
    = (Raise InvalidKeyFormat, Demo.seeded)
  ∧ @appendWif Demo.keystore (VStr Demo.wifA) Demo.seeded
    = (Return tt, appended (VStr Demo.wifA) Demo.seeded).
Proof.
  split.
  - apply (proj1 (@appendWif_truthy Demo.keystore (VStr "not-a-key") Demo.seeded
                    eq_refl) (Foreign "Exception")).
    reflexivity.
  - apply (proj2 (@appendWif_truthy Demo.keystore (VStr Demo.wifA) Demo.seeded
                    eq_refl)).
    reflexivity.
Defined.

(** The empty string is rejected by [PrivateKey], yet [appendWif] neither
    raises [InvalidKeyFormat] nor anything else on it. *)
Lemma appendWif_empty_string :
  @PrivateKey_new Demo.keystore (VStr "") = Raise (Foreign "Exception")
  ∧ @appendWif Demo.keystore (VStr "") Demo.seeded = (Return tt, Demo.seeded)
  ∧ (@appendWif Demo.keystore (VStr "") Demo.seeded).1 ≠ Raise InvalidKeyFormat.
Proof. split; [reflexivity | split; [reflexivity | discriminate]]. Qed.

(** ** appendSigner *)

Section AppendSigner.
Context `{AccountDirectory} `{KeyStore}.

(** C7: for an account that exists, a permission other than ["active"],
    ["posting"] and ["owner"] makes [appendSigner] raise
    [ValueError("Invalid permission")] with the builder untouched; each of
    the three appends to [wifs] what the wallet gives for the account's
    name at that permission. *)
Theorem appendSigner_permission (account permission : string)
    (a : Account) (w : World) :
  Account_new account = Return a →
  (permission ≠ "active" → permission ≠ "posting" → permission ≠ "owner" →
     appendSigner account permission w
       = (Raise (ValueError "Invalid permission"), w))
  ∧ (permission = "active" →
     appendSigner account permission w
       = (Return tt, appended (getActiveKeyForAccount (name a)) w))
  ∧ (permission = "posting" →
     appendSigner account permission w
       = (Return tt, appended (getPostingKeyForAccount (name a)) w))
  ∧ (permission = "owner" →
     appendSigner account permission w
       = (Return tt, appended (getOwnerKeyForAccount (name a)) w)).
Proof.
  intros Ha. unfold appendSigner, bind, call. rewrite Ha.
  split; [|split; [|split]].
  - intros Hact Hpost Hown.
    apply String.eqb_neq in Hact, Hpost, Hown.
    by rewrite Hact, Hpost, Hown.
  - by intros ->.
  - by intros ->.
  - by intros ->.
Qed.

End AppendSigner.

Lemma appendSigner_permission_witness :
  @appendSigner Demo.directory Demo.keystore "alice" "memo" Demo.seeded
    = (Raise (ValueError "Invalid permission"), Demo.seeded)
  ∧ @appendSigner Demo.directory Demo.keystore "alice" "active" Demo.seeded
    = (Return tt, appended (VStr Demo.wifA) Demo.seeded).
Proof.
  pose proof (@appendSigner_permission Demo.directory Demo.keystore
                "alice" "memo" _ Demo.seeded eq_refl) as Hmemo.
  pose proof (@appendSigner_permission Demo.directory Demo.keystore
                "alice" "active" _ Demo.seeded eq_refl) as Hactive.
  split.
  - apply (proj1 Hmemo); discriminate.
  - apply (proj1 (proj2 Hactive)). reflexivity.
Defined.

(** ** sign *)

Section Sign.
Context `{ChainClient}.

Lemma sign_construct_raise w e :
  SignedTransaction_new (items (self w)) = Raise e →
  sign w = (Raise (ValueError "Invalid TransactionBuilder Format"), w).
Proof.
  intros He. unfold sign.
  erewrite bind_raise; [done |].
  unfold try_except_raise, bind, json, get_self, call, ret. simpl. by rewrite He.
Qed.

Lemma sign_no_key w tx :
  SignedTransaction_new (items (self w)) = Return tx →
  any (wifs (self w)) = false →
  sign w = (Raise MissingKeyError, w).
Proof.
  intros Htx Hany. unfold sign.
  erewrite bind_return; cycle 1.
  { unfold try_except_raise, bind, json, get_self, call, ret. simpl. by rewrite Htx. }
  unfold bind, get_self. by rewrite Hany.
Qed.

Lemma sign_run w tx tx' sigs :
  SignedTransaction_new (items (self w)) = Return tx →
  any (wifs (self w)) = true →
  SignedTransaction_sign tx (wifs (self w)) chain_params = Return tx' →
  items (self w) !! "signatures" = Some (VList sigs) →
  sign w = (Return tt,
            with_item "signatures"
              (VList (sigs ++ SignedTransaction_signatures tx')) w).
Proof.
  intros Htx Hany Hsign Hsigs. unfold sign.
  erewrite bind_return; cycle 1.
  { unfold try_except_raise, bind, json, get_self, call, ret. simpl. by rewrite Htx. }
  unfold bind at 1. unfold get_self at 1. rewrite Hany. simpl.
  unfold bind at 1. unfold call at 1. rewrite Hsign.
  unfold item_extend. erewrite bind_return; [|by apply getitem_run].
  apply setitem_run.
Qed.

(** C3, as the code has it: with no pending key, [sign] raises and leaves
    the builder, its signatures included, as it was; the exception is
    [MissingKeyError] when [SignedTransaction] accepts the builder's
    entries and [ValueError] when it rejects them. *)
Theorem sign_without_wifs (w : World) :
  wifs (self w) = [] →
  (∀ tx, SignedTransaction_new (items (self w)) = Return tx →
     sign w = (Raise MissingKeyError, w))
  ∧ (∀ e, SignedTransaction_new (items (self w)) = Raise e →
     sign w = (Raise (ValueError "Invalid TransactionBuilder Format"), w)).
Proof.
  intros Hw. split.
  - intros tx Htx. apply (sign_no_key w tx Htx). by rewrite Hw.
  - intros e He. by apply (sign_construct_raise w e).
Qed.

(** C2: two calls of [sign], with [self.wifs] set to [wifs2] between
    them, leave under ["signatures"] the signatures present before, then
    those of the first call, then those of the second, whenever
    [SignedTransaction] accepts the builder and signs at both calls.
    Nothing is asked of [wifs2] beyond holding a key, so the keys of the
    two calls may be disjoint or not. *)
Theorem sign_twice_appends (w : World) (wifs2 sigs : list value)
    (tx1 tx1' tx2 tx2' : SignedTransaction) :
  let w1 := with_item "signatures"
              (VList (sigs ++ SignedTransaction_signatures tx1')) w in
  let w1' := mkWorld (set_wifs wifs2 (self w1)) (trace w1) in
  items (self w) !! "signatures" = Some (VList sigs) →
  SignedTransaction_new (items (self w)) = Return tx1 →
  any (wifs (self w)) = true →
  SignedTransaction_sign tx1 (wifs (self w)) chain_params = Return tx1' →
  SignedTransaction_new (items (self w1')) = Return tx2 →
  any wifs2 = true →
  SignedTransaction_sign tx2 wifs2 chain_params = Return tx2' →
  sign w = (Return tt, w1)
  ∧ ∃ w2, sign w1' = (Return tt, w2)
    ∧ items (self w2) !! "signatures"
      = Some (VList (sigs ++ SignedTransaction_signatures tx1'
                          ++ SignedTransaction_signatures tx2')).
Proof.
  intros w1 w1' Hsigs Hnew1 Hany1 Hsign1 Hnew2 Hany2 Hsign2.
  split; [by apply (sign_run w tx1 tx1' sigs) |].
  eexists. split.
  - apply (sign_run w1' tx2 tx2'
             (sigs ++ SignedTransaction_signatures tx1')); try done.
    apply lookup_insert_eq.
  - rewrite with_item_lookup. by rewrite <- (assoc_L (++)).
Qed.

End Sign.

Lemma sign_without_wifs_witness :
  @sign Demo.chain Demo.seeded = (Raise MissingKeyError, Demo.seeded)
  ∧ @sign Demo.chain Demo.fresh
    = (Raise (ValueError "Invalid TransactionBuilder Format"), Demo.fresh).
Proof.
  split.
  - apply (proj1 (@sign_without_wifs Demo.chain Demo.seeded eq_refl) []).
    reflexivity.
  - apply (proj2 (@sign_without_wifs Demo.chain Demo.fresh eq_refl)
             (KeyError "ref_block_num")).
    reflexivity.
Defined.

(** [TransactionBuilder().sign()]: no pending key, and the exception is
    [ValueError], not [MissingKeyError]. *)
Lemma sign_fresh_builder :
  init VNone false 30 = Return (self Demo.fresh)
  ∧ wifs (self Demo.fresh) = []
  ∧ @sign Demo.chain Demo.fresh
    = (Raise (ValueError "Invalid TransactionBuilder Format"), Demo.fresh)
  ∧ (@sign Demo.chain Demo.fresh).1 ≠ Raise MissingKeyError.
Proof.
  split; [reflexivity | split; [reflexivity | split; [reflexivity | discriminate]]].
Qed.

Lemma sign_twice_appends_witness :
  let w := appended (VStr Demo.wifA) Demo.seeded in
  let w1 := with_item "signatures" (VList [VStr ("sig:" ++ Demo.wifA)%string]) w in
  @sign Demo.chain w = (Return tt, w1)
  ∧ ∃ w2,
      @sign Demo.chain (mkWorld (set_wifs [VStr Demo.wifB] (self w1)) (trace w1))
        = (Return tt, w2)
      ∧ items (self w2) !! "signatures"
        = Some (VList [VStr ("sig:" ++ Demo.wifA)%string; VStr ("sig:" ++ Demo.wifB)%string]).
Proof.
  intros w w1.
  exact (@sign_twice_appends Demo.chain w [VStr Demo.wifB] []
           [] [VStr ("sig:" ++ Demo.wifA)%string] [] [VStr ("sig:" ++ Demo.wifB)%string]
           eq_refl eq_refl eq_refl eq_refl eq_refl eq_refl eq_refl).
Defined.

(** ** broadcast *)

Section Broadcast.
Context `{ChainClient}.

(** C6: with [no_broadcast] set, [broadcast] returns the builder, leaves
    every field of it as it was, and its only effect is the warning: the
    node is asked neither to verify nor to broadcast. *)
Theorem broadcast_no_broadcast (w : World) :
  no_broadcast (self w) = true →
  broadcast w
    = (Return (self w), logged (LogWarning "Not broadcasting anything!") w).
Proof.
  intros Hnb. unfold broadcast, bind, get_self. simpl. by rewrite Hnb.
Qed.

(** C5: without [no_broadcast], when [verify_authority] answers false on
    the builder's entries, [broadcast] raises [InsufficientAuthorityError];
    the builder is as it was, and the trace grows by that one
    [verify_authority] call only: [broadcast_transaction] is not called. *)
Theorem broadcast_insufficient_authority (w : World) :
  no_broadcast (self w) = false →
  verify_authority (items (self w)) = Return false →
  broadcast w
    = (Raise InsufficientAuthorityError,
       logged (VerifyAuthority (items (self w))) w).
Proof.
  intros Hnb Hv.
  unfold broadcast, bind, get_self, json, emit, call, ret. simpl.
  rewrite Hnb. simpl. by rewrite Hv.
Qed.

End Broadcast.

Lemma broadcast_no_broadcast_witness :
  let w := mkWorld (mkBuilder Demo.transfer true 30 [] []) [] in
  @broadcast Demo.chain w
    = (Return (self w), logged (LogWarning "Not broadcasting anything!") w).
Proof.
  intros w. exact (@broadcast_no_broadcast Demo.chain w eq_refl).
Defined.

Lemma broadcast_insufficient_authority_witness :
  @broadcast Demo.chain Demo.seeded
    = (Raise InsufficientAuthorityError,
       logged (VerifyAuthority Demo.transfer) Demo.seeded).
Proof.
  exact (@broadcast_insufficient_authority Demo.chain Demo.seeded eq_refl eq_refl).
Defined.

(** ** addSigningInformation *)

Section AddSigningInformation.
Context `{AccountDirectory} `{ChainClient}.

Lemma required_authorities_loop permission del l : ∀ w m,
  items (self w) !! "required_authorities" = Some (VDict m) →
  Forall (resolves permission del) l →
  for_each l (λ account_auth,
    account_auth_account <- call (Account_new account_auth.1) ;;
    item_update "required_authorities" account_auth.1
      (account_get account_auth_account permission))%py w
  = (Return tt,
     with_item "required_authorities"
       (VDict (delegated_authorities del m l)) w).
Proof.
  induction l as [|aa l IH]; intros w m Hm Hl.
  - simpl. unfold ret. by rewrite with_item_same.
  - inversion Hl as [|? ? (a & Ha & Hp) Hl']; subst.
    cbn [for_each delegated_authorities foldl].
    erewrite bind_return; cycle 1.
    { erewrite bind_return; [|unfold call; by rewrite Ha].
      unfold item_update. erewrite bind_return; [|by apply getitem_run].
      apply setitem_run. }
    unfold account_get. rewrite Hp.
    erewrite IH; [|apply with_item_lookup | done].
    by rewrite with_item_twice.
Qed.

Lemma missing_signatures_loop permission del l : ∀ w l0,
  items (self w) !! "missing_signatures" = Some (VList l0) →
  Forall (resolves permission del) l →
  for_each l (λ account_auth,
    account_auth_account <- call (Account_new account_auth.1) ;;
    au <- account_getitem account_auth_account permission ;;
    item_extend "missing_signatures" (key_names au))%py w
  = (Return tt,
     with_item "missing_signatures"
       (VList (l0 ++ delegated_keys del l)) w).
Proof.
  induction l as [|aa l IH]; intros w l0 Hl0 Hl.
  - simpl. unfold ret, delegated_keys. simpl.
    rewrite (right_id_L [] (++)). by rewrite with_item_same.
  - inversion Hl as [|? ? (a & Ha & Hp) Hl']; subst.
    cbn [for_each].
    erewrite bind_return; cycle 1.
    { erewrite bind_return; [|unfold call; by rewrite Ha].
      erewrite bind_return; [|unfold account_getitem; by rewrite Hp].
      unfold item_extend. erewrite bind_return; [|by apply getitem_run].
      apply setitem_run. }
    erewrite IH; [|apply with_item_lookup | done].
    rewrite with_item_twice. unfold delegated_keys. simpl.
    by rewrite (assoc_L (++)).
Qed.

Lemma addSigningInformation_run account permission a authority del w :
  Account_new account = Return a →
  authorities a !! permission = Some authority →
  Forall (resolves permission del) (account_auths authority) →
  addSigningInformation account permission w
  = (Return tt,
     with_item "blockchain" chain_params
       (with_item "missing_signatures"
          (VList (key_names authority
                  ++ delegated_keys del (account_auths authority)))
          (with_item "required_authorities"
             (VDict (delegated_authorities del
                       {[account := authority_value authority]}
                       (account_auths authority)))
             w))).
Proof.
  intros Ha Hp Hl. unfold addSigningInformation.
  erewrite bind_return; [|unfold call; by rewrite Ha].
  erewrite bind_return; [|unfold account_getitem; by rewrite Hp].
  erewrite bind_return; [|apply setitem_run].
  erewrite bind_return; cycle 1.
  { apply (required_authorities_loop permission del); [|done].
    apply with_item_lookup. }
  rewrite with_item_twice.
  erewrite bind_return; [|apply setitem_run].
  erewrite bind_return; cycle 1.
  { apply (missing_signatures_loop permission del); [|done].
    apply with_item_lookup. }
  rewrite with_item_twice.
  apply setitem_run.
Qed.

Lemma key_names_fmap au : key_names au = VStr <$> (key_auths au).*1.
Proof. unfold key_names. by rewrite <- list_fmap_compose. Qed.

Lemma delegated_keys_fmap del l :
  delegated_keys del l
  = VStr <$> concat ((λ aa : string * Z, (key_auths (del aa.1)).*1) <$> l).
Proof.
  induction l as [|aa l IH]; [done |].
  change (delegated_keys del (aa :: l))
    with (key_names (del aa.1) ++ delegated_keys del l).
  rewrite IH, key_names_fmap. rewrite fmap_cons, concat_cons.
  by rewrite fmap_app.
Qed.

Lemma delegated_authorities_other del l : ∀ m other,
  other ∉ l.*1 →
  delegated_authorities del m l !! other = m !! other.
Proof.
  induction l as [|aa l IH]; intros m other Hother; [done |].
  simpl in Hother. apply not_elem_of_cons in Hother as [Hne Hother].
  cbn [delegated_authorities foldl].
  fold (delegated_authorities del (<[aa.1 := authority_value (del aa.1)]> m) l).
  rewrite IH by done. by rewrite lookup_insert_ne.
Qed.

(** C1: when the account exists, has the authority [authority] at
    [permission], and every account named in its [account_auths] exists
    with the authority [del name] at the same permission,
    [addSigningInformation] returns and leaves under ["missing_signatures"]
    the keys of [authority]'s [key_auths], then for each entry of
    [account_auths], in order, the keys of that account's [key_auths]:
    the [account_auths] of the delegated accounts play no part, no key is
    dropped as a duplicate and no weight is looked at. *)
Theorem addSigningInformation_missing_signatures
    (account permission : string) (a : Account) (authority : Authority)
    (del : string → Authority) (w : World) :
  Account_new account = Return a →
  authorities a !! permission = Some authority →
  Forall (resolves permission del) (account_auths authority) →
  ∃ w', addSigningInformation account permission w = (Return tt, w')
    ∧ items (self w') !! "missing_signatures"
      = Some (VList (VStr <$>
          ((key_auths authority).*1
           ++ concat ((λ aa : string * Z, (key_auths (del aa.1)).*1)
                        <$> account_auths authority)))).
Proof.
  intros Ha Hp Hl. eexists. split.
  - by apply (addSigningInformation_run account permission a authority del).
  - rewrite with_item_lookup_ne by done. rewrite with_item_lookup.
    by rewrite fmap_app, key_names_fmap, delegated_keys_fmap.
Qed.

(** C10: under the same conditions, whatever the builder held before,
    ["required_authorities"] becomes the mapping with the account's
    authority and those of the accounts of its [account_auths], and
    ["missing_signatures"] the keys of these authorities; an account that
    is neither has no entry left in ["required_authorities"]. *)
Theorem addSigningInformation_replaces
    (account permission : string) (a : Account) (authority : Authority)
    (del : string → Authority) (w : World) :
  Account_new account = Return a →
  authorities a !! permission = Some authority →
  Forall (resolves permission del) (account_auths authority) →
  ∃ w' ra,
    addSigningInformation account permission w = (Return tt, w')
    ∧ items (self w') !! "required_authorities" = Some (VDict ra)
    ∧ ra = delegated_authorities del
             {[account := authority_value authority]}
             (account_auths authority)
    ∧ (∀ other, other ≠ account →
         other ∉ (account_auths authority).*1 → ra !! other = None)
    ∧ items (self w') !! "missing_signatures"
      = Some (VList (key_names authority
                     ++ delegated_keys del (account_auths authority))).
Proof.
  intros Ha Hp Hl. eexists. eexists. split; [|split; [|split; [|split]]].
  - by apply (addSigningInformation_run account permission a authority del).
  - do 2 (rewrite with_item_lookup_ne by done). apply with_item_lookup.
  - done.
  - intros other Hne Hother.
    rewrite delegated_authorities_other by done.
    by apply lookup_singleton_ne.
  - rewrite with_item_lookup_ne by done. apply with_item_lookup.
Qed.

End AddSigningInformation.

Lemma demo_alice_resolves :
  Forall (@resolves Demo.directory "active" Demo.delegate)
    (account_auths Demo.alice_active).
Proof.
  constructor; [|constructor].
  exists (mkAccount "bob" {["active" := Demo.bob_active]}). split; reflexivity.
Defined.

Lemma addSigningInformation_missing_signatures_witness :
  ∃ w',
    @addSigningInformation Demo.directory Demo.chain "alice" "active" Demo.seeded
      = (Return tt, w')
    ∧ items (self w') !! "missing_signatures"
      = Some (VList [VStr Demo.pubA; VStr Demo.pubB]).
Proof.
  exact (@addSigningInformation_missing_signatures Demo.directory Demo.chain
           "alice" "active" _ Demo.alice_active Demo.delegate Demo.seeded
           eq_refl eq_refl demo_alice_resolves).
Defined.

Lemma addSigningInformation_replaces_witness :
  let w := (@addSigningInformation Demo.directory Demo.chain
              "carol" "active" Demo.seeded).2 in
  items (self w) !! "required_authorities"
    = Some (VDict {["carol" := authority_value Demo.carol_active]})
  ∧ ∃ w' ra,
      @addSigningInformation Demo.directory Demo.chain "alice" "active" w
        = (Return tt, w')
      ∧ items (self w') !! "required_authorities" = Some (VDict ra)
      ∧ ra = <["bob" := authority_value Demo.bob_active]>
               {["alice" := authority_value Demo.alice_active]}
      ∧ (∀ other, other ≠ "alice" → other ∉ ["bob"] → ra !! other = None)
      ∧ items (self w') !! "missing_signatures"
        = Some (VList [VStr Demo.pubA; VStr Demo.pubB]).
Proof.
  intros w. split; [reflexivity |].
  exact (@addSigningInformation_replaces Demo.directory Demo.chain
           "alice" "active" _ Demo.alice_active Demo.delegate w
           eq_refl eq_refl demo_alice_resolves).
Defined.

(** * Further properties *)

(** ** Loops *)

(** What every run of the body keeps, the loop keeps, raised or not. *)
Lemma for_each_invariant {A} (P : World → Prop) (body : A → M unit) l :
  (∀ x w, P w → P (body x w).2) → ∀ w, P w → P (for_each l body w).2.
Proof.
  intros Hbody. induction l as [|x l IH]; intros w Hw; [done |].
  cbn [for_each]. unfold bind. specialize (Hbody x w Hw).
  destruct (body x w) as [[[]|e] w1]; simpl in *; [by apply IH | done].
Qed.

Lemma for_each_app {A} (body : A → M unit) l1 l2 w :
  for_each (l1 ++ l2) body w
  = bind (for_each l1 body) (λ _, for_each l2 body) w.
Proof.
  revert w. induction l1 as [|x l1 IH]; intros w; [done |].
  simpl. unfold bind in *.
  destruct (body x w) as [[[]|e] w1]; [apply IH | done].
Qed.

Lemma with_op_same w : with_op (op (self w)) w = w.
Proof. by destruct w as [[d nb e o ws] t]. Qed.

Lemma with_wifs_same w : with_wifs (wifs (self w)) w = w.
Proof. by destruct w as [[d nb e o ws] t]. Qed.

Lemma for_each_op_append l : ∀ w,
  for_each l op_append w = (Return tt, with_op (op (self w) ++ l) w).
Proof.
  induction l as [|o l IH]; intros w.
  - simpl. unfold ret. by rewrite (right_id_L [] (++)), with_op_same.
  - cbn [for_each]. erewrite bind_return; [|reflexivity].
    rewrite IH. unfold with_op, set_op. simpl. by rewrite <- (assoc_L (++)).
Qed.

(** ** appendOps and constructTx *)

Section AppendOps.
Context `{TransactionCodec}.

Lemma appendOps_constructTx ops w :
  appendOps ops w = constructTx (with_op (op (self w) ++ as_list ops) w).
Proof.
  unfold appendOps. destruct ops; try reflexivity.
  erewrite bind_return; [|apply for_each_op_append]. done.
Qed.

(** The three ways [constructTx] can fail, and its one way to succeed. *)
Lemma constructTx_cases w :
  match wrap_all (op (self w)) with
  | Raise e => constructTx w = (Raise e, w)
  | Return ops =>
      match get_block_params with
      | Raise e => constructTx w = (Raise e, w)
      | Return params =>
          match SignedTransaction_of params.1 params.2
                  (fmt_time_from_now (expiration (self w))) ops with
          | Raise e => constructTx w = (Raise e, w)
          | Return tx =>
              constructTx w = (Return tt, with_items (tx ∪ items (self w)) w)
          end
      end
  end.
Proof.
  unfold constructTx, bind, get_self, call. simpl.
  destruct (wrap_all (op (self w))) as [ops|e]; [|done].
  destruct get_block_params as [params|e]; [|done].
  by destruct (SignedTransaction_of _ _ _ _) as [tx|e].
Qed.

Lemma wrap_all_rejected o e l :
  Operation_new o = Raise e → o ∈ l → ∃ e', wrap_all l = Raise e'.
Proof.
  intros Ho. induction l as [|x l IH]; intros Hin.
  - by apply not_elem_of_nil in Hin.
  - apply elem_of_cons in Hin as [<- | Hin]; simpl.
    + rewrite Ho. by eexists.
    + destruct (Operation_new x); [|by eexists].
      destruct (IH Hin) as [e' ->]. by eexists.
Qed.

(** X1: [constructTx] changes the builder only when it goes through: if it
    raises, whichever collaborator raised, the builder and the trace are as
    before. *)
Theorem constructTx_raise_unchanged (w w' : World) (e : exn) :
  constructTx w = (Raise e, w') → w' = w.
Proof.
  intros Hrun. pose proof (constructTx_cases w) as Hc.
  destruct (wrap_all (op (self w))); [|congruence].
  destruct get_block_params; [|congruence].
  destruct (SignedTransaction_of _ _ _ _); congruence.
Qed.

(** X2: when [constructTx] goes through, every entry of the new
    transaction's json is in the builder, every entry of the builder under a
    key the json lacks is kept (among them ["required_authorities"] and
    ["missing_signatures"] when the json has no such key), and [op] and
    [wifs] are untouched. *)
Theorem constructTx_updates (w : World) (ops : list Operation)
    (params : value * value) (tx : gmap string value) :
  wrap_all (op (self w)) = Return ops →
  get_block_params = Return params →
  SignedTransaction_of params.1 params.2
    (fmt_time_from_now (expiration (self w))) ops = Return tx →
  ∃ w', constructTx w = (Return tt, w')
    ∧ (∀ k v, tx !! k = Some v → items (self w') !! k = Some v)
    ∧ (∀ k, tx !! k = None → items (self w') !! k = items (self w) !! k)
    ∧ op (self w') = op (self w) ∧ wifs (self w') = wifs (self w).
Proof.
  intros Hops Hparams Htx. pose proof (constructTx_cases w) as Hc.
  rewrite Hops, Hparams, Htx in Hc. eexists. split; [exact Hc |].
  simpl. repeat split.
  - intros k v Hk. by apply lookup_union_Some_l.
  - intros k Hk. by apply lookup_union_r.
Qed.

(** X3: [appendOps] always leaves in [op] the operations it was given, after
    those already there: the elements of a list in order, any other value as
    one operation.  That holds when [constructTx] raises too; then the
    builder's mapping is as before. *)
Theorem appendOps_extends_op (ops : value) (w : World) :
  ∃ r w', appendOps ops w = (r, w')
    ∧ op (self w') = op (self w) ++ as_list ops
    ∧ wifs (self w') = wifs (self w)
    ∧ (∀ e, r = Raise e → items (self w') = items (self w)).
Proof.
  rewrite appendOps_constructTx.
  set (w1 := with_op (op (self w) ++ as_list ops) w).
  pose proof (constructTx_cases w1) as Hc.
  destruct (wrap_all (op (self w1))) as [xs|e];
    [|exists (Raise e), w1; by rewrite Hc].
  destruct get_block_params as [params|e];
    [|exists (Raise e), w1; by rewrite Hc].
  destruct (SignedTransaction_of _ _ _ _) as [tx|e];
    [|exists (Raise e), w1; by rewrite Hc].
  eexists _, _. split; [exact Hc |]. repeat split. intros e [=].
Qed.

(** X4: a descriptor that [Operation] rejects makes [appendOps] raise, when
    it is among the operations given and when it is in [op] already; it is
    in [op] afterwards and the mapping is as before.  So once such a
    descriptor has been given, every later [appendOps] raises. *)
Theorem appendOps_rejected_sticks (o ops : value) (e : exn) (w : World) :
  Operation_new o = Raise e →
  o ∈ op (self w) ++ as_list ops →
  ∃ e' w', appendOps ops w = (Raise e', w')
    ∧ o ∈ op (self w')
    ∧ items (self w') = items (self w).
Proof.
  intros Ho Hin. rewrite appendOps_constructTx.
  set (w1 := with_op (op (self w) ++ as_list ops) w).
  pose proof (constructTx_cases w1) as Hc.
  destruct (wrap_all_rejected o e (op (self w1)) Ho Hin) as [e' He'].
  rewrite He' in Hc. exists e', w1. by rewrite Hc.
Qed.

End AppendOps.

Lemma constructTx_raise_unchanged_witness :
  let w := with_op [VInt 7] Demo.seeded in
  (@constructTx DemoOps.codec w).2 = w.
Proof.
  intros w.
  apply (@constructTx_raise_unchanged DemoOps.codec w _ (Foreign "AssertionError")).
  reflexivity.
Defined.

Lemma constructTx_updates_witness :
  let w := with_op [DemoOps.transfer_op]
             (with_item "missing_signatures" (VList [VStr Demo.pubA]) Demo.fresh) in
  let tx := DemoOps.tx_json (VInt 34294) (VInt 3707022213)
              (VStr "2016-04-06T08:29:27") [DemoOps.transfer_op] in
  ∃ w', @constructTx DemoOps.codec w = (Return tt, w')
    ∧ (∀ k v, tx !! k = Some v → items (self w') !! k = Some v)
    ∧ (∀ k, tx !! k = None → items (self w') !! k = items (self w) !! k)
    ∧ op (self w') = op (self w) ∧ wifs (self w') = wifs (self w).
Proof.
  intros w tx.
  exact (@constructTx_updates DemoOps.codec w [DemoOps.transfer_op]
           (VInt 34294, VInt 3707022213) tx eq_refl eq_refl eq_refl).
Defined.

Lemma appendOps_rejected_sticks_witness :
  ∃ e' w', @appendOps DemoOps.codec DemoOps.vote_op
             (with_op [VInt 7] Demo.seeded) = (Raise e', w')
    ∧ VInt 7 ∈ op (self w')
    ∧ items (self w') = Demo.transfer.
Proof.
  apply (@appendOps_rejected_sticks DemoOps.codec (VInt 7) DemoOps.vote_op
           (Foreign "AssertionError") (with_op [VInt 7] Demo.seeded) eq_refl).
  simpl. left.
Defined.

(** ** appendMissingSignatures *)

Section AppendMissingSignatures.
Context `{KeyStore} `{KeyLookup}.

Lemma appendWif_accept wif w :
  truthy wif = true → PrivateKey_new wif = Return tt →
  appendWif wif w = (Return tt, appended wif w).
Proof.
  intros Ht Hk. unfold appendWif, try_except_raise, bind, call.
  by rewrite Ht, Hk.
Qed.

Lemma appendWif_reject wif w e :
  truthy wif = true → PrivateKey_new wif = Raise e →
  appendWif wif w = (Raise InvalidKeyFormat, w).
Proof.
  intros Ht Hk. unfold appendWif, try_except_raise, bind, call.
  by rewrite Ht, Hk.
Qed.

Lemma collect_loop key_of l : ∀ w,
  Forall (found_valid key_of) l →
  for_each l collect w
  = (Return tt,
     with_wifs (wifs (self w) ++ List.filter truthy (key_of <$> l)) w).
Proof.
  induction l as [|pub l IH]; intros w Hl.
  - simpl. unfold ret. by rewrite (right_id_L [] (++)), with_wifs_same.
  - inversion Hl as [|? ? [Hfound Hvalid] Hl']; subst.
    cbn [for_each]. unfold collect at 1.
    unfold bind at 1 2. unfold call. rewrite Hfound.
    rewrite fmap_cons. cbn [List.filter].
    destruct (truthy (key_of pub)) eqn:Ht.
    + rewrite (appendWif_accept _ _ Ht (Hvalid eq_refl)).
      rewrite (IH _ Hl'). unfold with_wifs, appended, set_wifs. simpl.
      by rewrite <- (assoc_L (++)).
    + unfold ret. by rewrite (IH _ Hl').
Qed.

Lemma appendMissingSignatures_loop arg w pubs :
  default (VList []) (items (self w) !! "missing_signatures") = VList pubs →
  appendMissingSignatures arg w = for_each pubs collect w.
Proof.
  intros Hm. unfold appendMissingSignatures, bind, get_self, call. simpl.
  by rewrite Hm.
Qed.

(** X5: when ["missing_signatures"] is a list, or absent (then it counts as
    the empty list), the wallet answers for each of its keys and
    [PrivateKey] accepts what the wallet finds, [appendMissingSignatures]
    appends to [wifs] the keys found, in the order of
    ["missing_signatures"]; keys the wallet does not have are skipped
    without error, a key found twice is appended twice, and nothing else
    changes. *)
Theorem appendMissingSignatures_collects (arg : value) (w : World)
    (pubs : list value) (key_of : value → value) :
  default (VList []) (items (self w) !! "missing_signatures") = VList pubs →
  Forall (found_valid key_of) pubs →
  appendMissingSignatures arg w
  = (Return tt,
     with_wifs (wifs (self w) ++ List.filter truthy (key_of <$> pubs)) w).
Proof.
  intros Hm Hpubs. rewrite (appendMissingSignatures_loop arg w pubs Hm).
  by apply collect_loop.
Qed.

(** X6: when the wallet finds for one key of ["missing_signatures"]
    something [PrivateKey] rejects, [appendMissingSignatures] raises
    [InvalidKeyFormat] there; the keys found before it stay appended to
    [wifs], those after it are not looked up. *)
Theorem appendMissingSignatures_stops (arg : value) (w : World)
    (before after : list value) (pub wif : value) (e : exn)
    (key_of : value → value) :
  default (VList []) (items (self w) !! "missing_signatures")
    = VList (before ++ pub :: after) →
  Forall (found_valid key_of) before →
  getPrivateKeyForPublicKey pub = Return wif →
  truthy wif = true →
  PrivateKey_new wif = Raise e →
  appendMissingSignatures arg w
  = (Raise InvalidKeyFormat,
     with_wifs (wifs (self w) ++ List.filter truthy (key_of <$> before)) w).
Proof.
  intros Hm Hbefore Hfound Ht Hk.
  rewrite (appendMissingSignatures_loop arg w _ Hm).
  rewrite for_each_app. erewrite bind_return; [|by apply collect_loop].
  cbn [for_each]. unfold collect at 1. unfold bind at 1 2. unfold call.
  rewrite Hfound, Ht. by rewrite (appendWif_reject _ _ e Ht Hk).
Qed.

Lemma appendWif_validated wif w :
  validated (wifs (self w)) → validated (wifs (self (appendWif wif w).2)).
Proof.
  intros Hv. unfold appendWif.
  destruct (truthy wif) eqn:Ht; [|done].
  unfold try_except_raise, bind, call.
  destruct (PrivateKey_new wif) as [[]|e] eqn:Hk; [|done].
  simpl. apply Forall_app. split; [done |]. by repeat constructor.
Qed.

(** X7: if every pending key is truthy and accepted by [PrivateKey], that
    is still so after [appendWif] and after [appendMissingSignatures],
    whatever they are given and whether they return or raise. *)
Theorem validated_kept (wif arg : value) (w : World) :
  validated (wifs (self w)) →
  validated (wifs (self (appendWif wif w).2))
  ∧ validated (wifs (self (appendMissingSignatures arg w).2)).
Proof.
  intros Hv. split; [by apply appendWif_validated |].
  unfold appendMissingSignatures, bind, get_self, call. simpl.
  destruct (iterate _) as [pubs|e]; [|done].
  apply (for_each_invariant (λ w, validated (wifs (self w)))); [|done].
  intros pub w1 Hw1. unfold bind, call.
  destruct (getPrivateKeyForPublicKey pub) as [k|e]; [|done].
  destruct (truthy k); [by apply appendWif_validated | done].
Qed.

End AppendMissingSignatures.

Lemma demo_found_valid pubs :
  Forall (λ pub, pub = VStr Demo.pubA ∨ pub = VStr Demo.pubB
                 ∨ pub = VStr "STM8unknown") pubs →
  Forall (@found_valid Demo.keystore DemoOps.wallet DemoOps.private_key_for)
    pubs.
Proof.
  intros Hp. eapply Forall_impl; [exact Hp |].
  intros pub [-> | [-> | ->]]; by split.
Defined.

Lemma appendMissingSignatures_collects_witness :
  let pubs := [VStr Demo.pubA; VStr "STM8unknown"; VStr Demo.pubB;
               VStr Demo.pubA] in
  let w := with_item "missing_signatures" (VList pubs) Demo.seeded in
  @appendMissingSignatures Demo.keystore DemoOps.wallet VNone w
  = (Return tt,
     with_wifs [VStr Demo.wifA; VStr Demo.wifB; VStr Demo.wifA] w)
  ∧ @appendMissingSignatures Demo.keystore DemoOps.wallet VNone Demo.seeded
    = (Return tt, with_wifs [] Demo.seeded).
Proof.
  intros pubs w. split.
  - apply (@appendMissingSignatures_collects Demo.keystore DemoOps.wallet
             VNone w pubs DemoOps.private_key_for eq_refl).
    apply demo_found_valid.
    repeat (apply List.Forall_cons; [auto |]). apply List.Forall_nil.
  - apply (@appendMissingSignatures_collects Demo.keystore DemoOps.wallet
             VNone Demo.seeded [] DemoOps.private_key_for eq_refl).
    constructor.
Defined.

Lemma appendMissingSignatures_stops_witness :
  let w := with_item "missing_signatures"
             (VList [VStr Demo.pubA; VStr Demo.pubC; VStr Demo.pubB])
             Demo.seeded in
  @appendMissingSignatures Demo.keystore DemoOps.wallet VNone w
  = (Raise InvalidKeyFormat, with_wifs [VStr Demo.wifA] w).
Proof.
  intros w.
  apply (@appendMissingSignatures_stops Demo.keystore DemoOps.wallet VNone w
           [VStr Demo.pubA] [VStr Demo.pubB] (VStr Demo.pubC)
           (VStr "not-a-key") (Foreign "Exception")
           DemoOps.private_key_for eq_refl);
    [|reflexivity | reflexivity | reflexivity].
  apply demo_found_valid.
  repeat (apply List.Forall_cons; [auto |]). apply List.Forall_nil.
Defined.

Lemma validated_kept_witness :
  let w := appended (VStr Demo.wifA)
             (with_item "missing_signatures"
                (VList [VStr Demo.pubB; VStr Demo.pubC]) Demo.seeded) in
  @validated Demo.keystore
    (wifs (self (@appendWif Demo.keystore (VStr "not-a-key") w).2))
  ∧ @validated Demo.keystore
      (wifs (self (@appendMissingSignatures Demo.keystore DemoOps.wallet
                     VNone w).2)).
Proof.
  intros w.
  apply (@validated_kept Demo.keystore DemoOps.wallet (VStr "not-a-key") VNone w).
  repeat constructor.
Defined.

(** ** sign, beyond the two-call case *)

Section SignMore.
Context `{KeyStore} `{ChainClient}.

(** Every way [sign] can end. *)
Lemma sign_cases w :
  match SignedTransaction_new (items (self w)) with
  | Raise _ =>
      sign w = (Raise (ValueError "Invalid TransactionBuilder Format"), w)
  | Return tx =>
      if any (wifs (self w)) then
        match SignedTransaction_sign tx (wifs (self w)) chain_params with
        | Raise e => sign w = (Raise e, w)
        | Return tx' =>
            match items (self w) !! "signatures" with
            | None => sign w = (Raise (KeyError "signatures"), w)
            | Some (VList sigs) =>
                sign w = (Return tt,
                          with_item "signatures"
                            (VList (sigs ++ SignedTransaction_signatures tx')) w)
            | Some _ => sign w = (Raise (AttributeError "extend"), w)
            end
        end
      else sign w = (Raise MissingKeyError, w)
  end.
Proof.
  unfold sign, try_except_raise, bind, json, get_self, call, ret. simpl.
  destruct (SignedTransaction_new (items (self w))) as [tx|e]; [|done].
  destruct (any (wifs (self w))); [|done]. simpl.
  destruct (SignedTransaction_sign _ _ _) as [tx'|e]; [|done].
  unfold item_extend, bind, getitem, bind, get_self, raise, ret.
  destruct (items (self w) !! "signatures") as [[]|]; done.
Qed.

(** X8: whatever [sign] does, it leaves [wifs] (the pending keys are not
    used up), [op], the trace and every entry of the mapping other than
    ["signatures"] as they were; and when it raises, the whole builder is as
    it was. *)
Theorem sign_frame (w : World) :
  ∃ r w', sign w = (r, w')
    ∧ wifs (self w') = wifs (self w)
    ∧ op (self w') = op (self w)
    ∧ trace w' = trace w
    ∧ (∀ k, k ≠ "signatures" → items (self w') !! k = items (self w) !! k)
    ∧ (∀ e, r = Raise e → w' = w).
Proof.
  pose proof (sign_cases w) as Hc.
  destruct (SignedTransaction_new (items (self w))) as [tx|e];
    [|eexists _, _; split; [exact Hc | done]].
  destruct (any (wifs (self w)));
    [|eexists _, _; split; [exact Hc | done]].
  destruct (SignedTransaction_sign _ _ _) as [tx'|e];
    [|eexists _, _; split; [exact Hc | done]].
  destruct (items (self w) !! "signatures") as [[]|];
    eexists _, _; (split; [exact Hc |]); try done.
  repeat split; try done.
  intros k Hk. by apply with_item_lookup_ne.
Qed.

(** X9: a list under ["signatures"] only grows under [sign]: after the
    call, returned or raised, the entry is the list it was followed by zero
    or more signatures. *)
Theorem sign_signatures_grow (w : World) (sigs : list value) :
  items (self w) !! "signatures" = Some (VList sigs) →
  ∃ new, items (self (sign w).2) !! "signatures" = Some (VList (sigs ++ new)).
Proof.
  intros Hs. pose proof (sign_cases w) as Hc. rewrite Hs in Hc.
  destruct (SignedTransaction_new (items (self w))) as [tx|e];
    [|exists []; by rewrite Hc, (right_id_L [] (++))].
  destruct (any (wifs (self w)));
    [|exists []; by rewrite Hc, (right_id_L [] (++))].
  destruct (SignedTransaction_sign _ _ _) as [tx'|e];
    [|exists []; by rewrite Hc, (right_id_L [] (++))].
  eexists. rewrite Hc. apply with_item_lookup.
Qed.

(** X10: on a builder whose mapping has no ["signatures"] entry, [sign]
    builds and signs the transaction and then raises
    [KeyError("signatures")]; the signatures made are lost and the builder
    is as it was. *)
Theorem sign_without_signatures_entry (w : World)
    (tx tx' : SignedTransaction) :
  items (self w) !! "signatures" = None →
  SignedTransaction_new (items (self w)) = Return tx →
  any (wifs (self w)) = true →
  SignedTransaction_sign tx (wifs (self w)) chain_params = Return tx' →
  sign w = (Raise (KeyError "signatures"), w).
Proof.
  intros Hs Hnew Hany Hsign. pose proof (sign_cases w) as Hc.
  by rewrite Hnew, Hany, Hsign, Hs in Hc.
Qed.

(** X11: a builder made from the entries [d] of an already signed
    transaction starts with no pending key; after [appendWif(k)] and
    [sign()] it holds under ["signatures"] the signatures of [d] followed by
    those made with [k] alone, and every other entry of [d] unchanged. *)
Theorem seeded_builder_adds_signatures (d : gmap string value)
    (sigs : list value) (k : value) (tx tx' : SignedTransaction)
    (nb : bool) (e : Z) :
  d !! "signatures" = Some (VList sigs) →
  truthy k = true →
  PrivateKey_new k = Return tt →
  SignedTransaction_new d = Return tx →
  SignedTransaction_sign tx [k] chain_params = Return tx' →
  ∃ b w', init (VDict d) nb e = Return b
    ∧ wifs b = []
    ∧ (appendWif k ;; sign)%py (mkWorld b []) = (Return tt, w')
    ∧ items (self w') !! "signatures"
      = Some (VList (sigs ++ SignedTransaction_signatures tx'))
    ∧ (∀ key, key ≠ "signatures" → items (self w') !! key = d !! key).
Proof.
  intros Hs Ht Hk Hnew Hsign.
  assert (init (VDict d) nb e = Return (mkBuilder d nb e [] [])) as Hinit.
  { unfold init. simpl. case_bool_decide as Hd; simpl; [by rewrite Hd | done]. }
  eexists _, _. split; [exact Hinit |]. split; [done |].
  split; [|split].
  - erewrite bind_return; [|by apply appendWif_accept].
    apply (sign_run _ tx tx' sigs); simpl; [done | | done | done].
    unfold any. simpl. by rewrite Ht.
  - apply with_item_lookup.
  - intros key Hkey. by rewrite with_item_lookup_ne.
Qed.

End SignMore.

(** ** appendSigner, beyond the permission check *)

Section AppendSignerMore.
Context `{AccountDirectory} `{KeyStore} `{ChainClient}.

(** X12: the account is looked up before the permission is checked: for an
    account the lookup fails on, [appendSigner] raises what the lookup
    raised, whatever the permission, and the builder is as it was. *)
Theorem appendSigner_unknown_account (account permission : string)
    (e : exn) (w : World) :
  Account_new account = Raise e →
  appendSigner account permission w = (Raise e, w).
Proof. intros Ha. unfold appendSigner, bind, call. by rewrite Ha. Qed.

(** X13: [appendSigner] does not check what the wallet gives.  When the
    wallet has no active key for the account and answers with a falsy value,
    that value is appended to [wifs] all the same, and a [sign] on a builder
    with no other key then raises [MissingKeyError]. *)
Theorem appendSigner_no_key_then_sign (account : string) (a : Account)
    (tx : SignedTransaction) (w : World) :
  Account_new account = Return a →
  truthy (getActiveKeyForAccount (name a)) = false →
  any (wifs (self w)) = false →
  SignedTransaction_new (items (self w)) = Return tx →
  (appendSigner account "active" ;; sign)%py w
  = (Raise MissingKeyError, appended (getActiveKeyForAccount (name a)) w).
Proof.
  intros Ha Hf Hany Hnew.
  erewrite bind_return; cycle 1.
  { unfold appendSigner, bind, call. rewrite Ha. reflexivity. }
  apply (sign_no_key _ tx); [done |].
  simpl. unfold any in *. rewrite existsb_app, Hany. simpl. by rewrite Hf.
Qed.

End AppendSignerMore.

Lemma sign_signatures_grow_witness :
  let w := appended (VStr Demo.wifA) Demo.seeded in
  ∃ new, items (self (@sign Demo.chain w).2) !! "signatures"
         = Some (VList ([] ++ new)).
Proof.
  intros w. exact (@sign_signatures_grow Demo.chain w [] eq_refl).
Defined.

Lemma sign_without_signatures_entry_witness :
  let w := appended (VStr Demo.wifA)
             (with_items (delete "signatures" Demo.transfer) Demo.seeded) in
  @sign Demo.chain w = (Raise (KeyError "signatures"), w).
Proof.
  intros w.
  exact (@sign_without_signatures_entry Demo.chain w []
           [VStr ("sig:" ++ Demo.wifA)%string] eq_refl eq_refl eq_refl eq_refl).
Defined.

Lemma seeded_builder_adds_signatures_witness :
  let d := <["signatures" := VList [VStr "sig:first"]]> Demo.transfer in
  ∃ b w', init (VDict d) false 30 = Return b
    ∧ wifs b = []
    ∧ (@appendWif Demo.keystore (VStr Demo.wifB) ;; @sign Demo.chain)%py
        (mkWorld b []) = (Return tt, w')
    ∧ items (self w') !! "signatures"
      = Some (VList [VStr "sig:first"; VStr ("sig:" ++ Demo.wifB)%string])
    ∧ (∀ key, key ≠ "signatures" → items (self w') !! key = d !! key).
Proof.
  intros d.
  exact (@seeded_builder_adds_signatures Demo.keystore Demo.chain d
           [VStr "sig:first"] (VStr Demo.wifB) []
           [VStr ("sig:" ++ Demo.wifB)%string] false 30
           eq_refl eq_refl eq_refl eq_refl eq_refl).
Defined.

Lemma appendSigner_unknown_account_witness :
  @appendSigner Demo.directory Demo.keystore "dave" "memo" Demo.seeded
  = (Raise (Foreign "AccountDoesNotExistsException"), Demo.seeded).
Proof.
  exact (@appendSigner_unknown_account Demo.directory Demo.keystore
           "dave" "memo" _ Demo.seeded eq_refl).
Defined.

Lemma appendSigner_no_key_then_sign_witness :
  (@appendSigner Demo.directory Demo.keystore "bob" "active" ;;
   @sign Demo.chain)%py Demo.seeded
  = (Raise MissingKeyError, appended (VBool false) Demo.seeded).
Proof.
  exact (@appendSigner_no_key_then_sign Demo.directory Demo.keystore Demo.chain
           "bob" _ [] Demo.seeded eq_refl eq_refl eq_refl eq_refl).
Defined.

(** ** broadcast, beyond the refusal *)

Section BroadcastMore.
Context `{ChainClient}.

(** Every way [broadcast] can end. *)
Lemma broadcast_cases w :
  let d := items (self w) in
  if no_broadcast (self w) then
    broadcast w
    = (Return (self w), logged (LogWarning "Not broadcasting anything!") w)
  else
    match verify_authority d with
    | Raise e => broadcast w = (Raise e, logged (VerifyAuthority d) w)
    | Return false =>
        broadcast w
        = (Raise InsufficientAuthorityError, logged (VerifyAuthority d) w)
    | Return true =>
        let w' := logged (BroadcastTransaction d)
                    (logged (VerifyAuthority d) w) in
        match broadcast_transaction d with
        | Raise e => broadcast w = (Raise e, w')
        | Return _ => broadcast w = (Return (self w), w')
        end
    end.
Proof.
  unfold broadcast, bind, get_self, json, emit, call, ret. simpl.
  destruct (no_broadcast (self w)); [done |]. simpl.
  destruct (verify_authority (items (self w))) as [[]|e]; simpl; [|done|done].
  by destruct (broadcast_transaction (items (self w))).
Qed.

(** X14: [broadcast] never changes the builder, whether it returns or
    raises, and only adds to the trace. *)
Theorem broadcast_keeps_builder (w : World) :
  self (broadcast w).2 = self w
  ∧ ∃ new, trace (broadcast w).2 = trace w ++ new.
Proof.
  pose proof (broadcast_cases w) as Hc. simpl in Hc.
  destruct (no_broadcast (self w)); [rewrite Hc; split; [done | by eexists] |].
  destruct (verify_authority (items (self w))) as [[]|e];
    [| rewrite Hc; split; [done | by eexists]
     | rewrite Hc; split; [done | by eexists]].
  destruct (broadcast_transaction (items (self w)));
    rewrite Hc; (split; [done |]); simpl;
    rewrite <- (assoc_L (++)); by eexists.
Qed.

(** X15: [broadcast_transaction] is called only on a builder without
    [no_broadcast], only after [verify_authority] has answered true on the
    builder's entries, and with those same entries. *)
Theorem broadcast_only_after_verify (w : World) (d : gmap string value) :
  BroadcastTransaction d ∈ trace (broadcast w).2 →
  BroadcastTransaction d ∉ trace w →
  no_broadcast (self w) = false
  ∧ verify_authority (items (self w)) = Return true
  ∧ d = items (self w).
Proof.
  intros Hin Hnot. pose proof (broadcast_cases w) as Hc. simpl in Hc.
  destruct (no_broadcast (self w)).
  { rewrite Hc in Hin. simpl in Hin.
    apply elem_of_app in Hin as [Hin | Hin]; [done |].
    by apply list_elem_of_singleton in Hin. }
  destruct (verify_authority (items (self w))) as [[]|e].
  - assert (trace (broadcast w).2
            = trace w ++ [VerifyAuthority (items (self w));
                          BroadcastTransaction (items (self w))]) as Ht.
    { destruct (broadcast_transaction (items (self w)));
        rewrite Hc; simpl; by rewrite <- (assoc_L (++)). }
    rewrite Ht in Hin. apply elem_of_app in Hin as [Hin | Hin]; [done |].
    apply elem_of_cons in Hin as [Hin | Hin]; [done |].
    apply list_elem_of_singleton in Hin. by injection Hin as ->.
  - rewrite Hc in Hin. simpl in Hin.
    apply elem_of_app in Hin as [Hin | Hin]; [done |].
    by apply list_elem_of_singleton in Hin.
  - rewrite Hc in Hin. simpl in Hin.
    apply elem_of_app in Hin as [Hin | Hin]; [done |].
    by apply list_elem_of_singleton in Hin.
Qed.

(** X16: without [no_broadcast] and with [verify_authority] answering true,
    [broadcast] calls [verify_authority] and then [broadcast_transaction],
    both on the builder's entries; it returns the builder when
    [broadcast_transaction] returns and raises what that raised otherwise,
    the builder unchanged in both cases. *)
Theorem broadcast_verified (w : World) :
  no_broadcast (self w) = false →
  verify_authority (items (self w)) = Return true →
  let w' := mkWorld (self w)
              (trace w ++ [VerifyAuthority (items (self w));
                           BroadcastTransaction (items (self w))]) in
  (broadcast_transaction (items (self w)) = Return tt →
     broadcast w = (Return (self w), w'))
  ∧ (∀ e, broadcast_transaction (items (self w)) = Raise e →
     broadcast w = (Raise e, w')).
Proof.
  intros Hnb Hv w'. pose proof (broadcast_cases w) as Hc. simpl in Hc.
  rewrite Hnb, Hv in Hc.
  assert (logged (BroadcastTransaction (items (self w)))
            (logged (VerifyAuthority (items (self w))) w) = w') as Hw.
  { unfold logged, w'. simpl. by rewrite <- (assoc_L (++)). }
  rewrite Hw in Hc. split.
  - intros Hb. by rewrite Hb in Hc.
  - intros e Hb. by rewrite Hb in Hc.
Qed.

End BroadcastMore.

Lemma broadcast_only_after_verify_witness :
  no_broadcast (self DemoOps.signed) = false
  ∧ @verify_authority Demo.chain (items (self DemoOps.signed)) = Return true
  ∧ items (self DemoOps.signed) = items (self DemoOps.signed).
Proof.
  apply (@broadcast_only_after_verify Demo.chain DemoOps.signed
           (items (self DemoOps.signed))).
  - right. left.
  - apply not_elem_of_nil.
Defined.

Lemma broadcast_verified_witness :
  let d := items (self DemoOps.signed) in
  let w' := mkWorld (self DemoOps.signed)
              [VerifyAuthority d; BroadcastTransaction d] in
  @broadcast Demo.chain DemoOps.signed = (Return (self DemoOps.signed), w')
  ∧ @broadcast DemoOps.offline DemoOps.signed = (Raise (Foreign "RPCError"), w').
Proof.
  intros d w'. split.
  - apply (proj1 (@broadcast_verified Demo.chain DemoOps.signed
                    eq_refl eq_refl)).
    reflexivity.
  - apply (proj2 (@broadcast_verified DemoOps.offline DemoOps.signed
                    eq_refl eq_refl)).
    reflexivity.
Defined.

(** ** addSigningInformation, when a lookup fails and what it leaves alone *)

Section AddSigningInformationMore.
Context `{AccountDirectory} `{KeyStore} `{KeyLookup} `{ChainClient}.


(** X18: when the lookup of an account of [account_auths] fails,
    [addSigningInformation] raises what it raised, after
    ["required_authorities"] has been replaced by the entries of the
    account and of the delegated accounts before the failing one;
    ["missing_signatures"] and ["blockchain"] are not written, so they keep
    what an earlier call left. *)
Theorem addSigningInformation_unknown_delegate
    (account permission : string) (a : Account) (authority : Authority)
    (del : string → Authority) (before after : list (string * Z))
    (aa : string * Z) (e : exn) (w : World) :
  Account_new account = Return a →
  authorities a !! permission = Some authority →
  account_auths authority = before ++ aa :: after →
  Forall (resolves permission del) before →
  Account_new aa.1 = Raise e →
  addSigningInformation account permission w
  = (Raise e,
     with_item "required_authorities"
       (VDict (delegated_authorities del
                 {[account := authority_value authority]} before)) w).
Proof.
  intros Ha Hp Hl Hbefore Haa. unfold addSigningInformation.
  erewrite bind_return; [|unfold call; by rewrite Ha].
  erewrite bind_return; [|unfold account_getitem; by rewrite Hp].
  erewrite bind_return; [|apply setitem_run].
  erewrite bind_raise; [done |].
  rewrite Hl, for_each_app.
  erewrite bind_return; cycle 1.
  { apply (required_authorities_loop permission del); [|done].
    apply with_item_lookup. }
  rewrite with_item_twice. cbn [for_each].
  erewrite bind_raise; [done |].
  erewrite bind_raise; [done |]. unfold call. by rewrite Haa.
Qed.

(** X19: a successful [addSigningInformation] writes the three entries
    ["required_authorities"], ["missing_signatures"] and ["blockchain"]
    (the node's [chain_params]) and nothing else: every other entry, the
    signatures among them, [wifs], [op] and the trace are as before. *)
Theorem addSigningInformation_frame
    (account permission : string) (a : Account) (authority : Authority)
    (del : string → Authority) (w : World) :
  Account_new account = Return a →
  authorities a !! permission = Some authority →
  Forall (resolves permission del) (account_auths authority) →
  ∃ w', addSigningInformation account permission w = (Return tt, w')
    ∧ items (self w') !! "blockchain" = Some chain_params
    ∧ (∀ k, k ≠ "required_authorities" → k ≠ "missing_signatures" →
         k ≠ "blockchain" → items (self w') !! k = items (self w) !! k)
    ∧ wifs (self w') = wifs (self w)
    ∧ op (self w') = op (self w)
    ∧ trace w' = trace w.
Proof.
  intros Ha Hp Hl. eexists. split.
  - by apply (addSigningInformation_run account permission a authority del).
  - split; [apply with_item_lookup |]. split; [|done].
    intros k Hra Hms Hbc. by rewrite !with_item_lookup_ne.
Qed.

(** X20: [addSigningInformation] followed by [appendMissingSignatures]
    appends to [wifs] the keys the wallet has for the account's [key_auths]
    and then for those of each delegated account, in that order, when the
    lookups succeed and [PrivateKey] accepts what the wallet finds. *)
Theorem addSigningInformation_then_appendMissingSignatures
    (account permission : string) (a : Account) (authority : Authority)
    (del : string → Authority) (key_of : value → value) (arg : value)
    (w : World) :
  let pubs := key_names authority
              ++ delegated_keys del (account_auths authority) in
  Account_new account = Return a →
  authorities a !! permission = Some authority →
  Forall (resolves permission del) (account_auths authority) →
  Forall (found_valid key_of) pubs →
  ∃ w', (addSigningInformation account permission ;;
         appendMissingSignatures arg)%py w = (Return tt, w')
    ∧ wifs (self w')
      = wifs (self w) ++ List.filter truthy (key_of <$> pubs)
    ∧ items (self w') !! "missing_signatures" = Some (VList pubs).
Proof.
  intros pubs Ha Hp Hl Hpubs. eexists. split.
  - erewrite bind_return;
      [|by apply (addSigningInformation_run account permission a authority del)].
    erewrite (appendMissingSignatures_loop arg _ pubs);
      [by apply collect_loop |].
    rewrite with_item_lookup_ne by done. by rewrite with_item_lookup.
  - split; [done |].
    simpl. rewrite lookup_insert_ne by done. apply lookup_insert_eq.
Qed.

End AddSigningInformationMore.


Lemma demo_erin_resolves :
  Forall (@resolves DemoOps.directory "active" Demo.delegate) [("bob", 1)].
Proof.
  constructor; [|constructor].
  exists (mkAccount "bob" {["active" := Demo.bob_active]}). split; reflexivity.
Defined.

Lemma addSigningInformation_unknown_delegate_witness :
  @addSigningInformation DemoOps.directory Demo.chain "erin" "active" Demo.seeded
  = (Raise (Foreign "AccountDoesNotExistsException"),
     with_item "required_authorities"
       (VDict (<["bob" := authority_value Demo.bob_active]>
                 {["erin" := authority_value DemoOps.erin_active]}))
       Demo.seeded).
Proof.
  exact (@addSigningInformation_unknown_delegate DemoOps.directory Demo.chain
           "erin" "active" _ DemoOps.erin_active Demo.delegate
           [("bob", 1)] [("carol", 1)] ("ghost", 1) _ Demo.seeded
           eq_refl eq_refl eq_refl demo_erin_resolves eq_refl).
Defined.

Lemma addSigningInformation_frame_witness :
  ∃ w',
    @addSigningInformation Demo.directory Demo.chain "alice" "active" Demo.seeded
      = (Return tt, w')
    ∧ items (self w') !! "blockchain" = Some (@chain_params Demo.chain)
    ∧ (∀ k, k ≠ "required_authorities" → k ≠ "missing_signatures" →
         k ≠ "blockchain" →
         items (self w') !! k = items (self Demo.seeded) !! k)
    ∧ wifs (self w') = wifs (self Demo.seeded)
    ∧ op (self w') = op (self Demo.seeded)
    ∧ trace w' = trace Demo.seeded.
Proof.
  exact (@addSigningInformation_frame Demo.directory Demo.chain
           "alice" "active" _ Demo.alice_active Demo.delegate Demo.seeded
           eq_refl eq_refl demo_alice_resolves).
Defined.

Lemma addSigningInformation_then_appendMissingSignatures_witness :
  ∃ w',
    (@addSigningInformation Demo.directory Demo.chain "alice" "active" ;;
     @appendMissingSignatures Demo.keystore DemoOps.wallet VNone)%py Demo.seeded
      = (Return tt, w')
    ∧ wifs (self w') = [] ++ [VStr Demo.wifA; VStr Demo.wifB]
    ∧ items (self w') !! "missing_signatures"
      = Some (VList [VStr Demo.pubA; VStr Demo.pubB]).
Proof.
  apply (@addSigningInformation_then_appendMissingSignatures
           Demo.directory Demo.keystore DemoOps.wallet Demo.chain
           "alice" "active" _ Demo.alice_active Demo.delegate
           DemoOps.private_key_for VNone Demo.seeded
           eq_refl eq_refl demo_alice_resolves).
  apply demo_found_valid.
  repeat (apply List.Forall_cons; [auto |]). apply List.Forall_nil.
Defined.
